(** * cloud-echo: the streaming voice pipeline of [main.go]

    [main.go] wires a capture subprocess, a streaming recognition session,
    a synthesis client and a file sink together with six goroutines and two
    unbuffered channels.  This development embeds the program as

    - a sequential start-up function ([startup]) in a small
      trace-and-abort monad, for everything [main] does before it spawns
      its goroutines;
    - an executable, scheduler-driven transition function ([step]) on
      a state holding one program counter per goroutine, the two channels,
      the file system and the chronological trace of external effects.

    Everything outside the program (the flag values, the backends, the
    subprocess, the clock, the file system's failures) is collected in a
    [World] record of oracles, so that every run is a function of a world
    and a schedule and can be evaluated. *)

From Stdlib Require Import ZArith String Ascii List Bool Lia DecimalString.
From Stdlib.Strings Require Import Byte.
From stdpp Require Import base tactics option list gmap strings.

Local Open Scope string_scope.
Local Open Scope list_scope.
Local Open Scope Z_scope.

(** ** The parts of the Go standard library that [main.go] relies on *)
Module Go.

(** [nil] error or an error with a message. *)
Abbreviation error := (option string).

(** A Go [(T, error)] return. *)
Inductive result (A : Type) : Type :=
| Ok (a : A)
| Err (e : string).
Arguments Ok {A} a.
Arguments Err {A} e.

(** *** [strings.ToUpper] *)

(** [c < utf8.RuneSelf] *)
Definition is_ascii_byte (c : ascii) : bool := (N_of_ascii c <? 128)%N.

(** ['a' <= c && c <= 'z'] *)
Definition is_lower_byte (c : ascii) : bool :=
  ((97 <=? N_of_ascii c) && (N_of_ascii c <=? 122))%N.

(** [c -= 'a' - 'A'] on lower-case bytes *)
Definition upper_byte (c : ascii) : ascii :=
  if is_lower_byte c then ascii_of_N (N_of_ascii c - 32) else c.

Fixpoint isASCII (s : string) : bool :=
  match s with
  | EmptyString => true
  | String c s' => is_ascii_byte c && isASCII s'
  end.

Fixpoint hasLower (s : string) : bool :=
  match s with
  | EmptyString => false
  | String c s' => is_lower_byte c || hasLower s'
  end.

Fixpoint map_bytes (f : ascii -> ascii) (s : string) : string :=
  match s with
  | EmptyString => EmptyString
  | String c s' => String (f c) (map_bytes f s')
  end.

(** [strings.ToUpper]: the byte-wise fast path for ASCII-only strings is
    the library's own; a string with a byte [>= 0x80] goes through
    [strings.Map(unicode.ToUpper, s)], whose tables are not part of this
    repository and are taken as the parameter [unicode_map]. *)
Definition ToUpper (unicode_map : string -> string) (s : string) : string :=
  if isASCII s then
    if hasLower s then map_bytes upper_byte s else s
  else unicode_map s.

(** *** [int32(x)] on a 64-bit [int] *)
Definition int32 (x : Z) : Z := (x + 2 ^ 31) mod 2 ^ 32 - 2 ^ 31.

(** *** [strconv.Itoa] and the zero-padded [appendInt] of package [time] *)
Definition digits (n : Z) : string :=
  NilZero.string_of_uint (N.to_uint (Z.to_N n)).

Definition Itoa (n : Z) : string :=
  if n <? 0 then "-" +:+ digits (- n) else digits n.

Fixpoint zeros (k : nat) : string :=
  match k with
  | O => EmptyString
  | S k' => String "0" (zeros k')
  end.

Definition appendInt (x : Z) (width : nat) : string :=
  let d := digits (Z.abs x) in
  (if x <? 0 then "-" else "") +:+ zeros (width - String.length d) +:+ d.

(** *** [time.Time] and [Time.Format(time.UnixDate)] *)

(** An instant as [time.Now()] returns it: seconds and nanoseconds since
    the Unix epoch, with the abbreviation and the offset (seconds east of
    UTC) of the local zone in force at that instant. *)
Record Time : Type := mkTime {
  unix_sec : Z;
  nsec : Z;
  zone_name : string;
  zone_offset : Z
}.

(** Days since 1970-01-01 to a civil (year, month, day). *)
Definition civil_from_days (days : Z) : Z * Z * Z :=
  let z := days + 719468 in
  let era := z / 146097 in
  let doe := z - era * 146097 in
  let yoe := (doe - doe / 1460 + doe / 36524 - doe / 146096) / 365 in
  let doy := doe - (365 * yoe + yoe / 4 - yoe / 100) in
  let mp := (5 * doy + 2) / 153 in
  let d := doy - (153 * mp + 2) / 5 + 1 in
  let m := if mp <? 10 then mp + 3 else mp - 9 in
  let y := yoe + era * 400 in
  ((if m <=? 2 then y + 1 else y), m, d).

Definition shortDayNames : list string :=
  ["Sun"; "Mon"; "Tue"; "Wed"; "Thu"; "Fri"; "Sat"]%string.

Definition shortMonthNames : list string :=
  ["Jan"; "Feb"; "Mar"; "Apr"; "May"; "Jun";
   "Jul"; "Aug"; "Sep"; "Oct"; "Nov"; "Dec"]%string.

Definition lookup_name (names : list string) (i : Z) : string :=
  nth (Z.to_nat i) names "".

(** The chunks of a layout that [time.UnixDate] uses. *)
Inductive std : Type :=
| stdWeekDay | stdMonth | stdUnderDay | stdHour | stdZeroMinute
| stdZeroSecond | stdTZ | stdLongYear
| stdLit (s : string).

(** ["Mon Jan _2 15:04:05 MST 2006"] *)
Definition UnixDate : list std :=
  [stdWeekDay; stdLit " "; stdMonth; stdLit " "; stdUnderDay; stdLit " ";
   stdHour; stdLit ":"; stdZeroMinute; stdLit ":"; stdZeroSecond;
   stdLit " "; stdTZ; stdLit " "; stdLongYear].

Definition format_chunk (t : Time) (c : std) : string :=
  let abs := unix_sec t + zone_offset t in
  let days := abs / 86400 in
  let sod := abs mod 86400 in
  let '(year, month, day) := civil_from_days days in
  match c with
  | stdWeekDay => lookup_name shortDayNames ((days + 4) mod 7)
  | stdMonth => lookup_name shortMonthNames (month - 1)
  | stdUnderDay =>
      (if day <? 10 then " " else "") +:+ appendInt day 0
  | stdHour => appendInt (sod / 3600) 2
  | stdZeroMinute => appendInt (sod mod 3600 / 60) 2
  | stdZeroSecond => appendInt (sod mod 60) 2
  | stdTZ =>
      if String.eqb (zone_name t) "" then
        let zone := Z.quot (zone_offset t) 60 in
        (if zone <? 0 then "-" else "+")
        +:+ appendInt (Z.abs zone / 60) 2
        +:+ appendInt (Z.abs zone mod 60) 2
      else zone_name t
  | stdLongYear => appendInt year 4
  | stdLit s => s
  end.

Definition Format (t : Time) (layout : list std) : string :=
  fold_right (fun c acc => format_chunk t c +:+ acc) "" layout.

End Go.

(** ** The services and data [main.go] exchanges with its collaborators *)

(** Package [speechpb]: the messages of the streaming recognition API. *)
Module speechpb.
Record RecognitionConfig : Type := {
  LanguageCode : string;
  Encoding : Z;
  SampleRate : Z
}.

Inductive StreamingRecognizeRequest : Type :=
| StreamingConfig (config : RecognitionConfig)
| AudioContent (content : list byte).

(** A result carries its alternatives; only their [Transcript] is read. *)
Record SpeechRecognitionResult : Type := {
  Alternatives : list string
}.

Record StreamingRecognizeResponse : Type := {
  Error : option string;
  Results : list SpeechRecognitionResult
}.
End speechpb.

(** Package [polly]: voices, synthesis requests and the returned stream. *)
Module polly.
(** [Id] is a [*string]: it may be nil. *)
Record Voice : Type := { Id : option string }.

Record SynthesizeSpeechInput : Type := {
  OutputFormat : string;
  SampleRate : string;
  Text : string;
  TextType : string;
  VoiceId : string
}.

(** The [io.ReadCloser] of a synthesis result: [sid] identifies the
    stream (the number of the call that returned it), [payload] is what
    reading it to the end yields. *)
Record AudioStream : Type := { sid : nat; payload : list byte }.
End polly.

Import Go.

(** The [options] struct filled by [flag.Parse]. *)
Record options : Type := {
  sampleRate : Z;
  language : string;
  codec : string
}.

(** One return of [out.Read(buf)] before end of file. *)
Inductive ReadOutcome : Type :=
| ReadChunk (chunk : list byte)
| ReadErr (e : string).

(** One return of [stream.Recv()] before end of stream. *)
Inductive RecvOutcome : Type :=
| RecvResp (resp : speechpb.StreamingRecognizeResponse)
| RecvErr (e : string).

(** Everything the program does not decide itself.  Scripts ([reads],
    [recvs]) are consumed in order and followed by [io.EOF]; oracles
    indexed by a [nat] are asked with the number of earlier calls.

    The scripts are finite: the worlds are those in which the audio source
    reaches end of input and the backend ends its stream.  A blocking call
    on a collaborator ([out.Read], [stream.Recv], [cmd.Wait]) may return
    whenever its goroutine is scheduled; the read of the operator's line
    returns only if [stdin_returns]. *)
Record World : Type := {
  opts : options;
  unicode_upper : string -> string;
  (** [speechpb.RecognitionConfig_AudioEncoding_value] *)
  RecognitionConfig_AudioEncoding_value : gmap string Z;
  describe_voices : result (list polly.Voice);
  new_client : error;
  streaming_recognize : error;
  send_config : error;
  stdout_pipe : error;
  cmd_start : error;
  (** does the read of the operator's line ever return *)
  stdin_returns : bool;
  signal : error;
  reads : list ReadOutcome;
  send_audio : nat -> error;
  close_send : error;
  recvs : list RecvOutcome;
  cmd_wait : error;
  synthesize_speech : nat -> polly.SynthesizeSpeechInput -> result (list byte);
  now : nat -> Time;
  create : nat -> string -> error;
  (** [None]: the whole stream is copied; [Some m]: [io.Copy] fails after
      [m] bytes *)
  copy : nat -> option nat
}.

(** A deferred call of the sink goroutine. *)
Inductive Deferred : Type :=
| DeferFileClose (name : string)
| DeferStreamClose (stream : polly.AudioStream).

(** External effects and channel operations, as they happen. *)
Inductive Event : Type :=
| EvDescribeVoices (lang : string)
| EvNewClient
| EvStreamingRecognize
| EvSend (req : speechpb.StreamingRecognizeRequest) (err : error)
| EvCloseSend (err : error)
| EvRecvEOF
| EvRecvResp (resp : speechpb.StreamingRecognizeResponse)
| EvRecvErr (e : string)
| EvStdoutPipe
| EvStart (command : string)
| EvPrint (msg : string)
| EvReadStdin
| EvSignal (err : error)
| EvRead (r : option ReadOutcome)
| EvWait (err : error)
| EvTextsSend (text : string)
| EvTextsClose
| EvTextsDrained
| EvSynthesizeSpeech (input : polly.SynthesizeSpeechInput)
    (out : option polly.AudioStream)
| EvStreamsSend (stream : polly.AudioStream)
| EvStreamsClose
| EvStreamsDrained
| EvCreate (name : string) (err : error)
| EvCopy (name : string) (stream : polly.AudioStream) (written : list byte)
| EvFileClose (name : string)
| EvStreamClose (stream : polly.AudioStream)
| EvPipeClose
| EvLog (format : string) (args : list string)
| EvExit (code : Z).

(** How the process ended. *)
Inductive Halt : Type :=
| Fatal
| Panic (msg : string)
| Returned.

(** ** [main], up to the point where it spawns its goroutines *)

(** A computation that extends the trace (newest event first) and either
    goes on with a value or stops the process. *)
Inductive Outcome (A : Type) : Type :=
| Next (a : A) (tr : list Event)
| Stop (h : Halt) (tr : list Event).
Arguments Next {A} a tr.
Arguments Stop {A} h tr.

Definition M (A : Type) : Type := list Event -> Outcome A.

#[global] Instance M_ret : MRet M := fun A a tr => Next a tr.

#[global] Instance M_bind : MBind M := fun A B k m tr =>
  match m tr with
  | Next a tr' => k a tr'
  | Stop h tr' => Stop h tr'
  end.

Definition emit (e : Event) : M unit := fun tr => Next tt (e :: tr).

(** [log.Fatalf]: print, then [os.Exit(1)]. *)
Definition logFatalf {A} (format : string) (args : list string) : M A :=
  fun tr => Stop Fatal (EvExit 1 :: EvLog format args :: tr).

Definition logPrintf (format : string) (args : list string) : M unit :=
  emit (EvLog format args).

(** A run-time panic of the main goroutine. *)
Definition panic {A} (msg : string) : M A := fun tr => Stop (Panic msg) tr.

(** [if err != nil { log.Fatalf(format, err) }] *)
Definition fatal_on (err : error) (format : string) : M unit :=
  match err with
  | Some e => logFatalf format [e]
  | None => mret tt
  end.

(** [xs[0]] *)
Definition index0 {A} (xs : list A) : M A :=
  match xs with
  | [] => panic "runtime error: index out of range"
  | x :: _ => mret x
  end.

(** [*p] *)
Definition deref {A} (p : option A) : M A :=
  match p with
  | None => panic "runtime error: invalid memory address or nil pointer dereference"
  | Some a => mret a
  end.

Definition sox_command (o : options) : string :=
  "/usr/local/bin/sox -d -r " +:+ Itoa (sampleRate o) +:+ " -c 1 -t "
  +:+ codec o +:+ " -".

Definition config_request (o : options) (enc : Z) : speechpb.StreamingRecognizeRequest :=
  speechpb.StreamingConfig
    {| speechpb.LanguageCode := language o;
       speechpb.Encoding := enc;
       speechpb.SampleRate := int32 (sampleRate o) |}.

(** Line 67: the encoding the codec flag names. *)
Definition lookup_codec (w : World) (name : string) : option Z :=
  RecognitionConfig_AudioEncoding_value w !! ToUpper (unicode_upper w) name.

(** Lines 44-104 of [main]; the value is the voice id used from then on. *)
Definition startup (w : World) : M string :=
  emit (EvDescribeVoices (language (opts w))) ;;
  resp ← match describe_voices w with
         | Err e => logFatalf "Failed to get voices: %v" [e]
         | Ok voices => mret voices
         end ;
  v ← index0 resp ;
  voice ← deref (polly.Id v) ;
  emit EvNewClient ;;
  fatal_on (new_client w) "Failed to create client: %v" ;;
  emit EvStreamingRecognize ;;
  fatal_on (streaming_recognize w) "%v" ;;
  enc ← match lookup_codec w (codec (opts w)) with
        | None => logFatalf "Invalid codec: %s" [codec (opts w)]
        | Some enc => mret enc
        end ;
  emit (EvSend (config_request (opts w) enc) (send_config w)) ;;
  fatal_on (send_config w) "%v" ;;
  logPrintf "sent config. now listening on stdin" [] ;;
  emit EvStdoutPipe ;;
  fatal_on (stdout_pipe w) "%v" ;;
  emit (EvStart (sox_command (opts w))) ;;
  fatal_on (cmd_start w) "start: %v" ;;
  mret voice.

(** ** The six goroutines *)

(** Stop listener (lines 107-115). *)
Inductive StopPc : Type :=
| StopRead
| StopSignal
| StopDone.

(** Send loop (lines 118-146); [pos] counts the reads made so far. *)
Inductive SendPc : Type :=
| SendLoop (pos : nat)
| SendDone.

(** Receive loop (lines 149-171): about to call [Recv]; iterating over the
    results of a response; iterating over the alternatives of a result. *)
Inductive RecvPc : Type :=
| RecvLoop (pos : nat)
| RecvResults (pos : nat) (rs : list speechpb.SpeechRecognitionResult)
| RecvAlts (pos : nat) (alts : list string)
    (rs : list speechpb.SpeechRecognitionResult)
| RecvDone.

(** Waiter on the subprocess (lines 174-180). *)
Inductive WaitPc : Type :=
| WaitBlocked
| WaitDone.

(** Bridge (lines 183-193); [n] counts the calls of [say] made so far. *)
Inductive BridgePc : Type :=
| BridgeRange (n : nat)
| BridgeSay (n : nat) (text : string)
| BridgeSend (n : nat) (stream : polly.AudioStream)
| BridgeClose (n : nat)
| BridgeDone.

(** Sink (lines 196-211); [k] counts the streams taken so far, [defers]
    is the goroutine's stack of deferred calls, last deferred first. *)
Inductive SinkPc : Type :=
| SinkRange (k : nat) (defers : list Deferred)
| SinkItem (k : nat) (defers : list Deferred) (stream : polly.AudioStream)
| SinkDone.

Record State : Type := mkState {
  voice : string;
  stopper : StopPc;
  sender : SendPc;
  receiver : RecvPc;
  waiter : WaitPc;
  bridge : BridgePc;
  sink : SinkPc;
  (** [texts] and [streams] are unbuffered: only their closed flag is state *)
  texts_closed : bool;
  streams_closed : bool;
  fs : gmap string (list byte);
  halted : option Halt;
  trace : list Event
}.

Definition set_stopper (v : StopPc) (s : State) : State :=
  mkState (voice s) v (sender s) (receiver s) (waiter s) (bridge s) (sink s)
    (texts_closed s) (streams_closed s) (fs s) (halted s) (trace s).
Definition set_sender (v : SendPc) (s : State) : State :=
  mkState (voice s) (stopper s) v (receiver s) (waiter s) (bridge s) (sink s)
    (texts_closed s) (streams_closed s) (fs s) (halted s) (trace s).
Definition set_receiver (v : RecvPc) (s : State) : State :=
  mkState (voice s) (stopper s) (sender s) v (waiter s) (bridge s) (sink s)
    (texts_closed s) (streams_closed s) (fs s) (halted s) (trace s).
Definition set_waiter (v : WaitPc) (s : State) : State :=
  mkState (voice s) (stopper s) (sender s) (receiver s) v (bridge s) (sink s)
    (texts_closed s) (streams_closed s) (fs s) (halted s) (trace s).
Definition set_bridge (v : BridgePc) (s : State) : State :=
  mkState (voice s) (stopper s) (sender s) (receiver s) (waiter s) v (sink s)
    (texts_closed s) (streams_closed s) (fs s) (halted s) (trace s).
Definition set_sink (v : SinkPc) (s : State) : State :=
  mkState (voice s) (stopper s) (sender s) (receiver s) (waiter s) (bridge s) v
    (texts_closed s) (streams_closed s) (fs s) (halted s) (trace s).
Definition set_texts_closed (v : bool) (s : State) : State :=
  mkState (voice s) (stopper s) (sender s) (receiver s) (waiter s) (bridge s)
    (sink s) v (streams_closed s) (fs s) (halted s) (trace s).
Definition set_streams_closed (v : bool) (s : State) : State :=
  mkState (voice s) (stopper s) (sender s) (receiver s) (waiter s) (bridge s)
    (sink s) (texts_closed s) v (fs s) (halted s) (trace s).
Definition set_fs (v : gmap string (list byte)) (s : State) : State :=
  mkState (voice s) (stopper s) (sender s) (receiver s) (waiter s) (bridge s)
    (sink s) (texts_closed s) (streams_closed s) v (halted s) (trace s).
Definition set_halted (v : option Halt) (s : State) : State :=
  mkState (voice s) (stopper s) (sender s) (receiver s) (waiter s) (bridge s)
    (sink s) (texts_closed s) (streams_closed s) (fs s) v (trace s).
Definition set_trace (v : list Event) (s : State) : State :=
  mkState (voice s) (stopper s) (sender s) (receiver s) (waiter s) (bridge s)
    (sink s) (texts_closed s) (streams_closed s) (fs s) (halted s) v.

(** Record the events [evs] (given oldest first). *)
Definition emits (evs : list Event) (s : State) : State :=
  set_trace (rev evs ++ trace s) s.

(** [log.Fatalf] in a goroutine: the whole process exits with status 1. *)
Definition fatalf (format : string) (args : list string) (s : State) : State :=
  set_halted (Some Fatal) (emits [EvLog format args; EvExit 1] s).

(** The state in which the goroutines start. *)
Definition spawn (voice : string) (tr : list Event) : State :=
  mkState voice StopRead (SendLoop 0) (RecvLoop 0) WaitBlocked (BridgeRange 0)
    (SinkRange 0 []) false false ∅ None tr.

(** What the scheduler can pick: a step of one goroutine, a hand-over on
    one of the two unbuffered channels (sender and receiver move together),
    or the return of [wg.Wait()] in [main]. *)
Inductive Action : Type :=
| AStop
| ASend
| ARecv
| AWait
| ABridge
| ASink
| ATexts
| AStreams
| AMain.

(** Lines 109-114: prompt, wait for a line, signal the subprocess. *)
Definition step_stop (w : World) (s : State) : option State :=
  match stopper s with
  | StopRead =>
      if stdin_returns w
      then Some (emits [EvPrint "Press 'Enter' to stop"; EvReadStdin]
                   (set_stopper StopSignal s))
      else None
  | StopSignal =>
      match signal w with
      | Some e => Some (fatalf "%v" [e] (emits [EvSignal (Some e)] s))
      | None => Some (emits [EvSignal None] (set_stopper StopDone s))
      end
  | StopDone => None
  end.

(** Lines 123-145: one iteration of the send loop. *)
Definition step_send (w : World) (s : State) : option State :=
  match sender s with
  | SendLoop pos =>
      match reads w !! pos with
      | None =>
          match close_send w with
          | Some e =>
              Some (fatalf "Could not close stream: %v" [e]
                      (emits [EvRead None; EvCloseSend (Some e)] s))
          | None =>
              Some (emits [EvRead None; EvCloseSend None;
                           EvLog "sent all the audio" []]
                      (set_sender SendDone s))
          end
      | Some (ReadErr e) =>
          Some (emits [EvRead (Some (ReadErr e));
                       EvLog "Could not read from stdin: %v" [e]]
                  (set_sender (SendLoop (S pos)) s))
      | Some (ReadChunk chunk) =>
          let err := send_audio w pos in
          let logs := match err with
                      | Some e => [EvLog "Could not send audio: %v" [e]]
                      | None => []
                      end in
          Some (emits ([EvRead (Some (ReadChunk chunk));
                        EvSend (speechpb.AudioContent chunk) err] ++ logs)
                  (set_sender (SendLoop (S pos)) s))
      end
  | SendDone => None
  end.

(** Lines 151-170: the receive loop, except for the hand-over of a
    transcript on [texts], which is [step_texts]. *)
Definition step_recv (w : World) (s : State) : option State :=
  match receiver s with
  | RecvLoop pos =>
      match recvs w !! pos with
      | None =>
          Some (emits [EvRecvEOF; EvLog "recv eof %v" []; EvTextsClose]
                  (set_texts_closed true (set_receiver RecvDone s)))
      | Some (RecvErr e) =>
          Some (fatalf "Cannot stream results: %v" [e] (emits [EvRecvErr e] s))
      | Some (RecvResp resp) =>
          match speechpb.Error resp with
          | Some e =>
              Some (fatalf "Could not recognize: %v" [e]
                      (emits [EvRecvResp resp] s))
          | None =>
              Some (emits [EvRecvResp resp]
                      (set_receiver (RecvResults (S pos) (speechpb.Results resp)) s))
          end
      end
  | RecvResults pos [] => Some (set_receiver (RecvLoop pos) s)
  | RecvResults pos (r :: rs) =>
      Some (emits [EvLog "Result: %s" (speechpb.Alternatives r)]
              (set_receiver (RecvAlts pos (speechpb.Alternatives r) rs) s))
  | RecvAlts pos [] rs => Some (set_receiver (RecvResults pos rs) s)
  | RecvAlts pos (_ :: _) rs => None
  | RecvDone => None
  end.

(** [texts <- alt.Transcript] meeting [for text := range texts]. *)
Definition step_texts (w : World) (s : State) : option State :=
  match receiver s, bridge s with
  | RecvAlts pos (alt :: alts) rs, BridgeRange n =>
      Some (emits [EvTextsSend alt]
              (set_bridge (BridgeSay n alt) (set_receiver (RecvAlts pos alts rs) s)))
  | _, _ => None
  end.

(** Lines 217-224 of [say]. *)
Definition say_input (voice text : string) : polly.SynthesizeSpeechInput :=
  {| polly.OutputFormat := "mp3";
     polly.SampleRate := "8000";
     polly.Text := text;
     polly.TextType := "text";
     polly.VoiceId := voice |}.

(** [say]: the [n]-th call of [svc.SynthesizeSpeech]. *)
Definition say (w : World) (n : nat) (voice text : string) : result polly.AudioStream :=
  match synthesize_speech w n (say_input voice text) with
  | Err e => Err e
  | Ok audio => Ok {| polly.sid := n; polly.payload := audio |}
  end.

(** Lines 185-192: the bridge, except for the two hand-overs. *)
Definition step_bridge (w : World) (s : State) : option State :=
  match bridge s with
  | BridgeRange n =>
      if texts_closed s
      then Some (emits [EvTextsDrained] (set_bridge (BridgeClose n) s))
      else None
  | BridgeSay n text =>
      match say w n (voice s) text with
      | Err e =>
          Some (emits [EvLog "saying '%s'" [text];
                       EvSynthesizeSpeech (say_input (voice s) text) None]
                  (set_bridge (BridgeClose (S n)) s))
      | Ok stream =>
          Some (emits [EvLog "saying '%s'" [text];
                       EvSynthesizeSpeech (say_input (voice s) text) (Some stream)]
                  (set_bridge (BridgeSend (S n) stream) s))
      end
  | BridgeSend _ _ => None
  | BridgeClose n =>
      Some (emits [EvStreamsClose]
              (set_streams_closed true (set_bridge BridgeDone s)))
  | BridgeDone => None
  end.

(** [streams <- stream] meeting [for stream := range streams]. *)
Definition step_streams (w : World) (s : State) : option State :=
  match bridge s, sink s with
  | BridgeSend n stream, SinkRange k defers =>
      Some (emits [EvStreamsSend stream]
              (set_sink (SinkItem k defers stream) (set_bridge (BridgeRange n) s)))
  | _, _ => None
  end.

(** Lines 199-200. *)
Definition file_name (t : Time) : string :=
  "./tmp/" +:+ Format t UnixDate +:+ ".mp3".

Definition run_deferred (d : Deferred) : Event :=
  match d with
  | DeferFileClose name => EvFileClose name
  | DeferStreamClose stream => EvStreamClose stream
  end.

(** Lines 198-210: the sink, except for the hand-over on [streams].
    [os.Create] truncates or creates the file; [io.Copy] then writes from
    offset 0, so the file holds what was written. *)
Definition step_sink (w : World) (s : State) : option State :=
  match sink s with
  | SinkRange k defers =>
      if streams_closed s
      then Some (emits (EvStreamsDrained :: map run_deferred defers)
                   (set_sink SinkDone s))
      else None
  | SinkItem k defers stream =>
      let name := file_name (now w k) in
      match create w k name with
      | Some e => Some (fatalf "%v" [e] (emits [EvCreate name (Some e)] s))
      | None =>
          let written := match copy w k with
                         | None => polly.payload stream
                         | Some m => take m (polly.payload stream)
                         end in
          Some (emits [EvCreate name None; EvCopy name stream written;
                       EvLog ("wrote audio to " +:+ name) []]
                  (set_fs (<[name := written]> (<[name := []]> (fs s)))
                     (set_sink
                        (SinkRange (S k)
                           (DeferStreamClose stream :: DeferFileClose name :: defers))
                        s)))
      end
  | SinkDone => None
  end.

(** Lines 176-179. *)
Definition step_wait (w : World) (s : State) : option State :=
  match waiter s with
  | WaitBlocked =>
      match cmd_wait w with
      | Some e => Some (fatalf "wait: %v" [e] (emits [EvWait (Some e)] s))
      | None => Some (emits [EvWait None] (set_waiter WaitDone s))
      end
  | WaitDone => None
  end.

(** All six goroutines have called [wg.Done()]. *)
Definition all_done (s : State) : bool :=
  match stopper s, sender s, receiver s, waiter s, bridge s, sink s with
  | StopDone, SendDone, RecvDone, WaitDone, BridgeDone, SinkDone => true
  | _, _, _, _, _, _ => false
  end.

(** Line 213 and the deferred [out.Close()]. *)
Definition step_main (w : World) (s : State) : option State :=
  if all_done s
  then Some (set_halted (Some Returned) (emits [EvPipeClose; EvExit 0] s))
  else None.

(** One scheduled step; nothing moves once the process has exited. *)
Definition step (w : World) (a : Action) (s : State) : option State :=
  match halted s with
  | Some _ => None
  | None =>
      match a with
      | AStop => step_stop w s
      | ASend => step_send w s
      | ARecv => step_recv w s
      | AWait => step_wait w s
      | ABridge => step_bridge w s
      | ASink => step_sink w s
      | ATexts => step_texts w s
      | AStreams => step_streams w s
      | AMain => step_main w s
      end
  end.

Fixpoint run (w : World) (sched : list Action) (s : State) : option State :=
  match sched with
  | [] => Some s
  | a :: sched' =>
      match step w a s with
      | Some s' => run w sched' s'
      | None => None
      end
  end.

(** A whole execution: start-up, then the schedule. *)
Definition exec (w : World) (sched : list Action) : option State :=
  match startup w [] with
  | Next v tr => run w sched (spawn v tr)
  | Stop _ _ => None
  end.

Definition Reachable (w : World) (s : State) : Prop :=
  exists sched, exec w sched = Some s.

Definition actions : list Action :=
  [AStop; ASend; ARecv; AWait; ABridge; ASink; ATexts; AStreams; AMain].

(** No action is enabled. *)
Definition quiescent (w : World) (s : State) : bool :=
  forallb (fun a => match step w a s with None => true | Some _ => false end)
    actions.

(** ** Observables read off the trace *)

(** The events oldest first. *)
Definition chronological (tr : list Event) : list Event := rev tr.

(** Requests passed to [stream.Send], with the error returned. *)
Definition sends (tr : list Event) : list (speechpb.StreamingRecognizeRequest * error) :=
  omap (fun e => match e with EvSend req err => Some (req, err) | _ => None end)
    (chronological tr).

(** Transcripts handed over on [texts]. *)
Definition texts_sent (tr : list Event) : list string :=
  omap (fun e => match e with EvTextsSend t => Some t | _ => None end)
    (chronological tr).

(** Texts passed to [say], with the stream returned ([None]: the call
    failed). *)
Definition synthesized (tr : list Event) : list (string * option polly.AudioStream) :=
  omap (fun e => match e with
                 | EvSynthesizeSpeech input out => Some (polly.Text input, out)
                 | _ => None
                 end)
    (chronological tr).

(** The streams the synthesis calls returned. *)
Definition returned_streams (tr : list Event) : list polly.AudioStream :=
  omap snd (synthesized tr).

(** Streams handed over on [streams]. *)
Definition streams_sent (tr : list Event) : list polly.AudioStream :=
  omap (fun e => match e with EvStreamsSend st => Some st | _ => None end)
    (chronological tr).

(** Streams copied to a file, with the file's name. *)
Definition written (tr : list Event) : list (string * polly.AudioStream) :=
  omap (fun e => match e with EvCopy name st _ => Some (name, st) | _ => None end)
    (chronological tr).

(** Handles released so far. *)
Definition closed_streams (tr : list Event) : list polly.AudioStream :=
  omap (fun e => match e with EvStreamClose st => Some st | _ => None end)
    (chronological tr).

Definition closed_files (tr : list Event) : list string :=
  omap (fun e => match e with EvFileClose name => Some name | _ => None end)
    (chronological tr).

(** All transcripts of a script of responses, in backend order. *)
Definition transcripts_of (rs : list speechpb.SpeechRecognitionResult) : list string :=
  concat (map speechpb.Alternatives rs).

Fixpoint backend_transcripts (script : list RecvOutcome) : list string :=
  match script with
  | RecvResp resp :: script' =>
      match speechpb.Error resp with
      | None => transcripts_of (speechpb.Results resp) ++ backend_transcripts script'
      | Some _ => []
      end
  | RecvErr _ :: _ => []
  | [] => []
  end.


Definition is_texts_drained (e : Event) : bool :=
  match e with EvTextsDrained => true | _ => false end.
Definition is_synth_failure (e : Event) : bool :=
  match e with EvSynthesizeSpeech _ None => true | _ => false end.

(** ** Concrete worlds *)

(** The encodings of the recognition API. *)
Definition v1beta1_encodings : gmap string Z :=
  list_to_map [("ENCODING_UNSPECIFIED", 0); ("LINEAR16", 1); ("FLAC", 2);
               ("MULAW", 3); ("AMR", 4); ("AMR_WB", 5)].

Definition one_result (t : string) : speechpb.SpeechRecognitionResult :=
  {| speechpb.Alternatives := [t] |}.

(** A response with the two utterances of the spec's scenario. *)
Definition two_utterances : list RecvOutcome :=
  [RecvResp {| speechpb.Error := None;
               speechpb.Results := [one_result "turn on the lights";
                                    one_result "what time is it"] |}].

(** 2026-11-01 01:41:07 UTC, [ns] nanoseconds into the second. *)
Definition at_nsec (ns : Z) : Time := mkTime 1793497267 ns "UTC" 0.

(** A world in which everything not listed succeeds. *)
Definition demo_world (codec_flag : string) (voices : result (list polly.Voice))
    (script : list RecvOutcome) (synth : nat -> result (list byte))
    (clock : nat -> Time) (creat : nat -> error) (wait : error) : World :=
  {| opts := {| sampleRate := 16000; language := "sv-SE"; codec := codec_flag |};
     unicode_upper := fun s => s;
     RecognitionConfig_AudioEncoding_value := v1beta1_encodings;
     describe_voices := voices;
     new_client := None;
     streaming_recognize := None;
     send_config := None;
     stdout_pipe := None;
     cmd_start := None;
     stdin_returns := true;
     signal := None;
     reads := [ReadChunk [x66; x4c; x61; x43]];
     send_audio := fun _ => None;
     close_send := None;
     recvs := script;
     cmd_wait := wait;
     synthesize_speech := fun n _ => synth n;
     now := clock;
     create := fun k _ => creat k;
     copy := fun _ => None |}.

Definition astrid : result (list polly.Voice) := Ok [{| polly.Id := Some "Astrid" |}].

Definition synth_ok (n : nat) : result (list byte) :=
  Ok [x49; x44; x33; nth n [x00; x01; x02; x03] xff].


(** Every call succeeds; each stream is written in a second of its own. *)
Definition world_ok : World :=
  demo_world "flac" astrid two_utterances synth_ok
    (fun k => mkTime (1793497267 + Z.of_nat k) 0 "UTC" 0) (fun _ => None) None.


(** The first output file cannot be created. *)
Definition world_create_fails : World :=
  demo_world "flac" astrid two_utterances synth_ok (fun _ => at_nsec 0)
    (fun k => match k with O => Some "open ./tmp: no such file or directory" | S _ => None end)
    None.


(** Both streams reach the sink within the same second. *)
Definition world_same_second : World :=
  demo_world "flac" astrid two_utterances synth_ok
    (fun k => at_nsec (250000000 * Z.of_nat (S k))) (fun _ => None) None.


(** The voice lookup succeeds with no voice for the language. *)
Definition world_no_voice : World :=
  demo_world "flac" (Ok []) [] synth_ok (fun _ => at_nsec 0) (fun _ => None) None.

(** The runs used below. *)

(** Both utterances through the whole pipeline, then shutdown. *)
Definition sched_full : list Action :=
  [ARecv; ARecv; ATexts; ABridge; AStreams; ASink;
   ARecv; ARecv; ATexts; ABridge; AStreams; ASink;
   ARecv; ARecv; ARecv; ABridge; ABridge; ASink;
   ASend; ASend; AStop; AStop; AWait; AMain].


(** Both streams are synthesized; the sink then takes the first. *)
Definition sched_create_fails : list Action :=
  [ARecv; ARecv; ATexts; ABridge; AStreams;
   ARecv; ARecv; ATexts; ABridge; ASink].


(** The first stream is written and the sink has taken the second. *)
Definition sched_second_item : list Action :=
  [ARecv; ARecv; ATexts; ABridge; AStreams; ASink;
   ARecv; ARecv; ATexts; ABridge; AStreams].

(** ** Quantities used in the proofs *)


(** Transcripts the receive loop still has to hand over. *)
Definition pending_transcripts (w : World) (r : RecvPc) : list string :=
  match r with
  | RecvLoop pos => backend_transcripts (drop pos (recvs w))
  | RecvResults pos rs =>
      transcripts_of rs ++ backend_transcripts (drop pos (recvs w))
  | RecvAlts pos alts rs =>
      alts ++ transcripts_of rs ++ backend_transcripts (drop pos (recvs w))
  | RecvDone => []
  end.

(** The transcript the bridge has taken and not yet passed to [say]. *)
Definition text_in_bridge (b : BridgePc) : list string :=
  match b with BridgeSay _ text => [text] | _ => [] end.

(** The stream the bridge holds and has not yet handed over. *)
Definition stream_in_bridge (b : BridgePc) : list polly.AudioStream :=
  match b with BridgeSend _ stream => [stream] | _ => [] end.

(** The stream the sink has taken and not yet written. *)
Definition stream_in_sink (k : SinkPc) : list polly.AudioStream :=
  match k with SinkItem _ _ stream => [stream] | _ => [] end.

(** Has the bridge left its [range] loop. *)
Definition bridge_left_loop (b : BridgePc) : bool :=
  match b with BridgeClose _ | BridgeDone => true | _ => false end.

(** The number of [say] calls the bridge's counter stands for. *)
Definition bridge_calls (b : BridgePc) : option nat :=
  match b with
  | BridgeRange n | BridgeSay n _ | BridgeSend n _ | BridgeClose n => Some n
  | BridgeDone => None
  end.







(** How the program counters and the channel flags hang together. *)
Record Coherent (s : State) : Prop := {
  coh_texts : texts_closed s = true <-> receiver s = RecvDone;
  coh_streams : streams_closed s = true <-> bridge s = BridgeDone;
  coh_sink : sink s = SinkDone -> streams_closed s = true;
  coh_exit : bridge_left_loop (bridge s) = true ->
             texts_closed s = true \/ existsb is_synth_failure (trace s) = true;
  coh_cause : bridge_left_loop (bridge s) = true ->
              existsb (fun e => is_texts_drained e || is_synth_failure e) (trace s) = true;
  coh_unreleased : sink s <> SinkDone ->
                   closed_streams (trace s) = [] /\ closed_files (trace s) = []
}.

(** What is in transit between the stages. *)
Record Pipelined (w : World) (s : State) : Prop := {
  pip_texts : texts_sent (trace s) ++ pending_transcripts w (receiver s)
              = backend_transcripts (recvs w);
  pip_say : texts_sent (trace s)
            = map fst (synthesized (trace s)) ++ text_in_bridge (bridge s);
  pip_streams : returned_streams (trace s)
                = streams_sent (trace s) ++ stream_in_bridge (bridge s);
  pip_sink : streams_sent (trace s)
             = map snd (written (trace s)) ++ stream_in_sink (sink s)
}.






(** The trace of a start-up that went through. *)
Definition boot_trace (w : World) (enc : Z) : list Event :=
  [EvStart (sox_command (opts w)); EvStdoutPipe;
   EvLog "sent config. now listening on stdin" [];
   EvSend (config_request (opts w) enc) None;
   EvStreamingRecognize; EvNewClient; EvDescribeVoices (language (opts w))].

(** What the [n]-th call of [say] hands back to the bridge. *)
Definition say_outcome (w : World) (n : nat) (voice text : string) : option polly.AudioStream :=
  match say w n voice text with
  | Ok stream => Some stream
  | Err _ => None
  end.

(** The log of synthesis calls is the log of [say]. *)
Record SayLog (w : World) (s : State) : Prop := {
  say_count : forall n, bridge_calls (bridge s) = Some n ->
                        n = length (synthesized (trace s));
  say_entries : forall i t o, synthesized (trace s) !! i = Some (t, o) ->
                              o = say_outcome w i (voice s) t
}.

(** The file both streams of [world_same_second] are written to. *)
Definition colliding_name : string := "./tmp/Sun Nov  1 01:41:07 UTC 2026.mp3".

(** The streams [synth_ok] returns for the first two calls. *)
Definition stream0 : polly.AudioStream :=
  {| polly.sid := 0; polly.payload := [x49; x44; x33; x00] |}.
Definition stream1 : polly.AudioStream :=
  {| polly.sid := 1; polly.payload := [x49; x44; x33; x01] |}.

Definition is_wait_error (e : Event) : bool :=
  match e with EvWait (Some _) => true | _ => false end.
Definition is_create_error (e : Event) : bool :=
  match e with EvCreate _ (Some _) => true | _ => false end.

(** The errors of [cmd.Wait] and [os.Create] end the process. *)
Record Fatality (w : World) (s : State) : Prop := {
  fat_wait : existsb is_wait_error (trace s) = true -> halted s = Some Fatal;
  fat_create : existsb is_create_error (trace s) = true -> halted s = Some Fatal;
  fat_waiter : cmd_wait w <> None -> waiter s = WaitBlocked
}.

(** ** Library functions on sample inputs *)

Example ToUpper_flac : ToUpper (fun s => s) "flac" = "FLAC".
Proof. reflexivity. Qed.

Example Format_UnixDate :
  Format (mkTime 1793497267 250000000 "UTC" 0) UnixDate
  = "Sun Nov  1 01:41:07 UTC 2026".
Proof. reflexivity. Qed.

Example Format_UnixDate_offset :
  Format (mkTime 1709251199 0 "" 19800) UnixDate
  = "Fri Mar  1 05:29:59 +0530 2024".
Proof. reflexivity. Qed.

Example int32_wraps : int32 (2 ^ 31) = - 2 ^ 31 /\ int32 16000 = 16000.
Proof. split; reflexivity. Qed.

Example sox_command_default :
  sox_command (opts world_ok) = "/usr/local/bin/sox -d -r 16000 -c 1 -t flac -".
Proof. reflexivity. Qed.

(** ** Reading the trace *)

Lemma chronological_cons (e : Event) (tr : list Event) :
  chronological (e :: tr) = chronological tr ++ [e].
Proof. reflexivity. Qed.

Lemma omap_snoc {A B} (f : A -> option B) (l : list A) (x : A) :
  omap f (l ++ [x]) = omap f l ++ match f x with Some y => [y] | None => [] end.
Proof. rewrite omap_app. simpl. destruct (f x); reflexivity. Qed.

Section Observing.
Context {B : Type} (f : Event -> option B).

Lemma observe_cons (e : Event) (tr : list Event) :
  omap f (chronological (e :: tr))
  = omap f (chronological tr) ++ match f e with Some y => [y] | None => [] end.
Proof. rewrite chronological_cons. apply omap_snoc. Qed.

Lemma observe_app (l tr : list Event) :
  omap f (chronological (l ++ tr))
  = omap f (chronological tr) ++ omap f (chronological l).
Proof. unfold chronological. by rewrite rev_app_distr, omap_app. Qed.

Lemma observe_deferred (defers : list Deferred) :
  f EvStreamsDrained = None ->
  (forall d, f (run_deferred d) = None) ->
  omap f (chronological (rev (map run_deferred defers) ++ [EvStreamsDrained])) = [].
Proof.
  intros H0 Hd. unfold chronological.
  rewrite rev_app_distr, rev_involutive. simpl. rewrite H0.
  induction defers as [|d ds IH]; simpl; [done|]. by rewrite Hd.
Qed.

(** The events of the sink's exit are invisible to an observable that
    ignores the closing of handles. *)
Lemma sink_exit_quiet (defers : list Deferred) (tr : list Event) :
  f EvStreamsDrained = None ->
  (forall d, f (run_deferred d) = None) ->
  omap f (chronological ((rev (map run_deferred defers) ++ [EvStreamsDrained]) ++ tr))
  = omap f (chronological tr).
Proof.
  intros H0 Hd. rewrite observe_app, observe_deferred by done. apply app_nil_r.
Qed.

End Observing.

Lemma sends_cons e tr :
  sends (e :: tr) = sends tr ++ match e with EvSend req err => [(req, err)] | _ => [] end.
Proof. unfold sends. rewrite observe_cons. by destruct e. Qed.

Lemma texts_sent_cons e tr :
  texts_sent (e :: tr) = texts_sent tr ++ match e with EvTextsSend t => [t] | _ => [] end.
Proof. unfold texts_sent. rewrite observe_cons. by destruct e. Qed.

Lemma synthesized_cons e tr :
  synthesized (e :: tr)
  = synthesized tr ++ match e with
                      | EvSynthesizeSpeech input out => [(polly.Text input, out)]
                      | _ => []
                      end.
Proof. unfold synthesized. rewrite observe_cons. by destruct e. Qed.

Lemma returned_streams_cons e tr :
  returned_streams (e :: tr)
  = returned_streams tr ++ match e with
                           | EvSynthesizeSpeech _ (Some st) => [st]
                           | _ => []
                           end.
Proof.
  unfold returned_streams. rewrite synthesized_cons, omap_app.
  by destruct e.
Qed.

Lemma streams_sent_cons e tr :
  streams_sent (e :: tr) = streams_sent tr ++ match e with EvStreamsSend st => [st] | _ => [] end.
Proof. unfold streams_sent. rewrite observe_cons. by destruct e. Qed.

Lemma written_cons e tr :
  written (e :: tr) = written tr ++ match e with EvCopy name st _ => [(name, st)] | _ => [] end.
Proof. unfold written. rewrite observe_cons. by destruct e. Qed.

Lemma closed_streams_cons e tr :
  closed_streams (e :: tr) = closed_streams tr ++ match e with EvStreamClose st => [st] | _ => [] end.
Proof. unfold closed_streams. rewrite observe_cons. by destruct e. Qed.

Lemma closed_files_cons e tr :
  closed_files (e :: tr) = closed_files tr ++ match e with EvFileClose name => [name] | _ => [] end.
Proof. unfold closed_files. rewrite observe_cons. by destruct e. Qed.

Lemma existsb_sink_exit (p : Event -> bool) (defers : list Deferred) tr :
  p EvStreamsDrained = false ->
  (forall d, p (run_deferred d) = false) ->
  existsb p ((rev (map run_deferred defers) ++ [EvStreamsDrained]) ++ tr) = existsb p tr.
Proof.
  intros H0 Hd. rewrite !existsb_app. simpl. rewrite H0. simpl.
  replace (existsb p (rev (map run_deferred defers))) with false; [done|].
  symmetry. apply not_true_is_false. intros [x [Hx Hp]]%existsb_exists.
  apply in_rev, in_map_iff in Hx as [d [<- _]]. by rewrite Hd in Hp.
Qed.



Lemma drop_lookup {A} (l : list A) (i : nat) (x : A) :
  l !! i = Some x -> drop i l = x :: drop (S i) l.
Proof. intros H. by apply drop_S. Qed.

Lemma drop_lookup_none {A} (l : list A) (i : nat) :
  l !! i = None -> drop i l = [].
Proof. intros H. apply drop_ge. by apply lookup_ge_None. Qed.

(** ** One step *)

(** All the ways a step can be taken. *)
Ltac step_cases H :=
  unfold step, step_stop, step_send, step_recv, step_texts, step_bridge,
    step_streams, step_sink, step_wait, step_main in H;
  repeat match type of H with
         | context [match ?x with _ => _ end] => destruct x eqn:?
         end;
  simplify_eq.

(** Replace the program counters and flags by their known values. *)
Ltac pcs :=
  repeat match goal with
         | E : ?f ?s = _ |- _ =>
             match f with
             | stopper => idtac | sender => idtac | receiver => idtac
             | waiter => idtac | bridge => idtac | sink => idtac
             | texts_closed => idtac | streams_closed => idtac | halted => idtac
             end;
             rewrite ?E in *; clear E
         end.

(** Push the observables through the events a step has added. *)
Ltac observe :=
  simpl in *;
  repeat first
    [ rewrite sends_cons | rewrite texts_sent_cons | rewrite returned_streams_cons
    | rewrite synthesized_cons
    | rewrite streams_sent_cons | rewrite written_cons
    | rewrite closed_streams_cons | rewrite closed_files_cons ];
  simpl; rewrite ?app_nil_r.

Ltac sink_exit :=
  try match goal with
      | |- context [rev (map run_deferred _)] =>
          unfold returned_streams, texts_sent, synthesized, streams_sent, written in *;
          rewrite !sink_exit_quiet by (done || by intros [])
      end.

Section Steps.
Context (w : World).

Lemma halted_quiescent (s : State) (h : Halt) :
  halted s = Some h -> quiescent w s = true.
Proof. intros H. unfold quiescent, step. rewrite H. reflexivity. Qed.



Lemma voice_step a s s' : step w a s = Some s' -> voice s' = voice s.
Proof. intros H. by step_cases H. Qed.


Lemma coherent_step a s s' :
  Coherent s -> step w a s = Some s' -> Coherent s'.
Proof.
  intros [H1 H2 H3 H4 H5 H6] H. step_cases H; split; simpl in *; pcs.
  all: observe; rewrite ?existsb_sink_exit by (done || by intros []);
    rewrite ?orb_true_r; try solve [intuition congruence].
Qed.

Lemma pipelined_step a s s' :
  Pipelined w s -> step w a s = Some s' -> Pipelined w s'.
Proof.
  intros [H1 H2 H3 H4] H. step_cases H; split; simpl in *; pcs.
  all: observe; sink_exit; try done.
  all: repeat match goal with
         | E : recvs _ !! _ = Some _ |- _ => rewrite (drop_lookup _ _ _ E) in *; clear E
         | E : recvs _ !! _ = None |- _ => rewrite (drop_lookup_none _ _ E) in *; clear E
         end; unfold transcripts_of in *; simpl in *.
  all: repeat match goal with E : speechpb.Error _ = _ |- _ => rewrite E in *; clear E end.
  all: rewrite ?map_app, ?app_nil_r in *; simpl in *; rewrite <- ?app_assoc in *; simpl;
    try congruence.
  all: unfold transcripts_of in *; congruence.
Qed.


Lemma saylog_step a s s' :
  SayLog w s -> step w a s = Some s' -> SayLog w s'.
Proof.
  intros [H1 H2] H. step_cases H; split; simpl in *; pcs.
  all: observe; sink_exit; try done.
  all: try (intros ? [= <-]; rewrite ?length_app; simpl;
            first [ by apply H1 | rewrite <- (H1 _ eq_refl); lia ]).
  all: intros i t o [Hi|[Hi Hl]]%lookup_app_Some; [by apply H2|].
  all: rewrite <- (H1 _ eq_refl) in Hl, Hi.
  all: destruct (i - n)%nat as [|k] eqn:Ek; simplify_eq/=.
  all: assert (i = n) as -> by lia; unfold say_outcome; by rewrite Heqr.
Qed.



Lemma fatality_step a s s' :
  Fatality w s -> step w a s = Some s' -> Fatality w s'.
Proof.
  intros [H1 H2 H3] H. step_cases H; split; simpl in *; pcs.
  all: rewrite ?existsb_sink_exit by (done || by intros []); try done.
  all: intuition congruence.
Qed.


End Steps.

(** ** Start-up *)

Ltac boot_cases H :=
  unfold startup, mbind, M_bind, mret, M_ret, emit, fatal_on, index0, deref,
    logFatalf, logPrintf, panic in H;
  repeat match type of H with
         | context [match ?x with _ => _ end] =>
             lazymatch x with
             | context [match _ with _ => _ end] => fail
             | _ => destruct x eqn:?; simpl in H
             end
         end;
  simplify_eq.

(** A start-up that goes through has used the first voice, resolved the
    codec, had its configuration accepted, and leaves [boot_trace]. *)
Lemma startup_next w v tr :
  startup w [] = Next v tr ->
  exists v0 rest enc,
    describe_voices w = Ok (v0 :: rest) /\ polly.Id v0 = Some v
    /\ lookup_codec w (codec (opts w)) = Some enc
    /\ send_config w = None
    /\ tr = boot_trace w enc.
Proof. intros H. boot_cases H. by eexists _, _, _. Qed.



(** ** Invariants of every run *)

Section Runs.
Context (w : World).

Lemma run_preserves (P : State -> Prop) :
  (forall a s s', P s -> step w a s = Some s' -> P s') ->
  forall sched s s', P s -> run w sched s = Some s' -> P s'.
Proof.
  intros Hstep sched. induction sched as [|a sched IH]; simpl; intros s s' HP H.
  - by simplify_eq.
  - destruct (step w a s) as [s1|] eqn:E; [|done]. eauto.
Qed.

Lemma exec_inv sched s :
  exec w sched = Some s ->
  exists v enc,
    startup w [] = Next v (boot_trace w enc)
    /\ run w sched (spawn v (boot_trace w enc)) = Some s.
Proof.
  unfold exec. destruct (startup w []) as [v tr|] eqn:E; [|done].
  intros H. destruct (startup_next _ _ _ E) as (v0 & rest & enc & _ & _ & _ & _ & ->).
  eauto.
Qed.

Lemma spawn_coherent v enc : Coherent (spawn v (boot_trace w enc)).
Proof. by split. Qed.

Lemma spawn_pipelined v enc : Pipelined w (spawn v (boot_trace w enc)).
Proof. by split. Qed.



Lemma exec_coherent sched s : exec w sched = Some s -> Coherent s.
Proof.
  intros (v & enc & _ & H)%exec_inv.
  eapply (run_preserves Coherent); [apply coherent_step| |exact H].
  apply spawn_coherent.
Qed.

Lemma exec_pipelined sched s : exec w sched = Some s -> Pipelined w s.
Proof.
  intros (v & enc & _ & H)%exec_inv.
  eapply (run_preserves (Pipelined w)); [apply pipelined_step| |exact H].
  apply spawn_pipelined.
Qed.


Lemma exec_saylog sched s : exec w sched = Some s -> SayLog w s.
Proof.
  intros (v & enc & _ & H)%exec_inv.
  eapply (run_preserves (SayLog w)); [apply saylog_step| |exact H].
  split; simpl; [by intros ? [= <-]|done].
Qed.



Lemma exec_fatality sched s : exec w sched = Some s -> Fatality w s.
Proof.
  intros (v & enc & _ & H)%exec_inv.
  eapply (run_preserves (Fatality w)); [apply fatality_step| |exact H]. by split.
Qed.


(** The voice is the first one of the lookup, throughout. *)
Lemma exec_voice sched s :
  exec w sched = Some s ->
  exists v0 rest, describe_voices w = Ok (v0 :: rest) /\ polly.Id v0 = Some (voice s).
Proof.
  intros H. unfold exec in H.
  destruct (startup w []) as [v tr|] eqn:E; [|done].
  destruct (startup_next _ _ _ E) as (v0 & rest & enc & Hv & Hi & _).
  exists v0, rest. split; [done|]. rewrite Hi. f_equal. symmetry.
  eapply (run_preserves (fun s => voice s = v)); [| |exact H]; [|reflexivity].
  intros a s1 s2 H1 H2. by rewrite (voice_step _ _ _ _ H2).
Qed.



(** *** No deadlock while synthesis succeeds *)



End Runs.

(** ** The claims *)

(** *** Start-up: C6, C9, C10 *)


(** C6 on [world_ok]: the requests the backend has received when [main]
    returns. *)
Example config_before_audio_run :
  option_map (fun s => sends (trace s)) (exec world_ok sched_full)
  = Some [(config_request (opts world_ok) 2, None);
          (speechpb.AudioContent [x66; x4c; x61; x43], None)].
Proof. vm_compute. reflexivity. Qed.




(** C9 on known names: the default flag and its upper-case spelling name
    the same encoding. *)
Example lookup_codec_flac :
  lookup_codec world_ok "flac" = Some 2 /\ lookup_codec world_ok "FLAC" = Some 2
  /\ lookup_codec world_ok "Amr_wb" = Some 5.
Proof. by vm_compute. Qed.

(** C10.  When the voice lookup succeeds with an empty list, [main] panics
    on [resp.Voices[0]] (index out of range): there is no log line and no
    [log.Fatal] exit.  Whenever the goroutines run, the lookup has returned
    at least one voice, and the first one is the voice in use. *)
Theorem empty_voice_list_panics (w : World) :
  (describe_voices w = Ok [] ->
   startup w [] = Stop (Panic "runtime error: index out of range")
                    [EvDescribeVoices (language (opts w))])
  /\ (forall sched s,
         exec w sched = Some s ->
         exists v0 rest,
           describe_voices w = Ok (v0 :: rest) /\ polly.Id v0 = Some (voice s)).
Proof.
  split.
  - intros Hv.
    unfold startup, mbind, M_bind, mret, M_ret, emit, index0, panic. by rewrite Hv.
  - apply exec_voice.
Qed.

(** C10, witness: a lookup that returns no voice; no schedule has an
    execution. *)
Lemma empty_voice_list_panics_witness :
  startup world_no_voice [] = Stop (Panic "runtime error: index out of range")
                                [EvDescribeVoices "sv-SE"]
  /\ forall sched, exec world_no_voice sched = None.
Proof.
  destruct (empty_voice_list_panics world_no_voice) as [H1 H2].
  split; [by apply H1|].
  intros sched. destruct (exec world_no_voice sched) as [s|] eqn:E; [|done].
  destruct (H2 _ _ E) as (v0 & rest & Hv & _). discriminate Hv.
Defined.

(** *** The pipeline: C7, C1 *)

(** C7.  In every run: the transcripts handed over on [texts] are a prefix
    of the backend's transcripts, in backend order; the texts passed to
    [say] are a prefix of those, and a transcript is taken only once the
    previous call of [say] is over; the [i]-th call is [say] on the [i]-th
    text; the streams handed over on [streams] are a prefix of the streams
    returned, and [say] is called again only once the previous stream has
    been handed over; the streams written are a prefix of the streams
    handed over, one at a time. *)
Theorem order_preserved (w : World) (sched : list Action) (s : State) :
  exec w sched = Some s ->
  texts_sent (trace s) `prefix_of` backend_transcripts (recvs w)
  /\ map fst (synthesized (trace s)) `prefix_of` texts_sent (trace s)
  /\ (length (texts_sent (trace s)) <= S (length (synthesized (trace s))))%nat
  /\ (forall i t o, synthesized (trace s) !! i = Some (t, o) ->
                    o = say_outcome w i (voice s) t)
  /\ streams_sent (trace s) `prefix_of` returned_streams (trace s)
  /\ (length (returned_streams (trace s)) <= S (length (streams_sent (trace s))))%nat
  /\ map snd (written (trace s)) `prefix_of` streams_sent (trace s)
  /\ (length (streams_sent (trace s)) <= S (length (written (trace s))))%nat.
Proof.
  intros H.
  destruct (exec_pipelined _ _ _ H) as [P1 P2 P3 P4].
  destruct (exec_saylog _ _ _ H) as [_ S2].
  repeat split.
  - eexists. symmetry. apply P1.
  - eexists. apply P2.
  - rewrite P2, length_app, length_map. destruct (bridge s); simpl; lia.
  - exact S2.
  - eexists. apply P3.
  - rewrite P3, length_app. destruct (bridge s); simpl; lia.
  - eexists. apply P4.
  - rewrite P4, length_app, length_map. destruct (sink s); simpl; lia.
Qed.

(** C7, witness: both utterances of [world_ok], written in order. *)
Lemma order_preserved_witness :
  exists s,
    exec world_ok sched_full = Some s
    /\ texts_sent (trace s) = ["turn on the lights"; "what time is it"]
    /\ map snd (written (trace s)) = [stream0; stream1]
    /\ map snd (written (trace s)) `prefix_of` streams_sent (trace s).
Proof.
  eexists. split; [vm_compute; reflexivity|].
  split; [vm_compute; reflexivity|]. split; [vm_compute; reflexivity|].
  eapply (order_preserved world_ok sched_full). vm_compute; reflexivity.
Defined.




(** *** Shutdown: C2, C4 *)







(** *** The sink: C3, C5, C8 *)

(** C3 (as amended).  When the sink holds a stream: if the file cannot be
    created, the error is logged and the process exits with status 1, the
    file system untouched; otherwise the file holds what [io.Copy] wrote,
    all of the stream or the part before a write failure, and the sink is
    back at the head of its loop for the next stream.  In every run a
    failed [os.Create] has ended the process, and every stream the sink
    has taken, but the one it holds, has been copied to its file. *)
Theorem sink_create_failure_fatal (w : World) (sched : list Action) (s : State) :
  exec w sched = Some s ->
  (forall k defers stream,
      halted s = None ->
      sink s = SinkItem k defers stream ->
      let name := file_name (now w k) in
      match create w k name with
      | Some e =>
          exists s',
            step w ASink s = Some s'
            /\ trace s' = EvExit 1 :: EvLog "%v" [e] :: EvCreate name (Some e) :: trace s
            /\ halted s' = Some Fatal
            /\ fs s' = fs s
            /\ quiescent w s' = true
      | None =>
          exists s',
            step w ASink s = Some s'
            /\ halted s' = None
            /\ sink s' = SinkRange (S k)
                           (DeferStreamClose stream :: DeferFileClose name :: defers)
            /\ fs s' !! name
               = Some (match copy w k with
                       | None => polly.payload stream
                       | Some m => take m (polly.payload stream)
                       end)
      end)
  /\ (existsb is_create_error (trace s) = true ->
      halted s = Some Fatal /\ quiescent w s = true)
  /\ streams_sent (trace s) = map snd (written (trace s)) ++ stream_in_sink (sink s).
Proof.
  intros H. split; [|split].
  - intros k defers stream Hh Hk name. unfold step, step_sink. rewrite Hh, Hk. fold name.
    destruct (create w k name) as [e|]; eexists; (split; [reflexivity|]).
    + by repeat split.
    + repeat split; simpl; try done. by rewrite lookup_insert_eq.
  - destruct (exec_fatality _ _ _ H) as [_ F2 _].
    intros Hx. split; [by apply F2|]. eapply halted_quiescent. by apply F2.
  - by destruct (exec_pipelined _ _ _ H).
Qed.

(** C3, witness: the first file of [world_create_fails]. *)
Lemma sink_create_failure_fatal_witness :
  exists s s',
    exec world_create_fails
      [ARecv; ARecv; ATexts; ABridge; AStreams; ARecv; ARecv; ATexts; ABridge]
    = Some s
    /\ step world_create_fails ASink s = Some s'
    /\ halted s' = Some Fatal
    /\ quiescent world_create_fails s' = true.
Proof.
  eexists.
  match goal with
  | |- exists s', exec ?w ?sc = Some ?s /\ _ =>
      assert (Hs : exec w sc = Some s) by (vm_compute; reflexivity);
      destruct (sink_create_failure_fatal w sc s Hs) as (H & _ & _);
      specialize (H 0%nat [] stream0 eq_refl eq_refl)
  end.
  simpl in H. destruct H as (s' & H1 & _ & H3 & _ & H5).
  exists s'. by repeat split.
Defined.

(** C3, counterexample.  The first file cannot be created: the process
    exits while the second stream, synthesized and ready, waits in the
    bridge; nothing is written. *)
Lemma create_failure_stops_pipeline :
  exists s,
    exec world_create_fails sched_create_fails = Some s
    /\ halted s = Some Fatal
    /\ sink s = SinkItem 0 [] stream0
    /\ bridge s = BridgeSend 2 stream1
    /\ written (trace s) = []
    /\ fs s = ∅
    /\ quiescent world_create_fails s = true.
Proof. eexists. split; [vm_compute; reflexivity|]. by repeat split. Qed.

(** The file name does not depend on the nanoseconds. *)
Lemma file_name_second (sec ns1 ns2 : Z) (zone : string) (offset : Z) :
  file_name (mkTime sec ns1 zone offset) = file_name (mkTime sec ns2 zone offset).
Proof. reflexivity. Qed.

(** C5, the code at two streams that reach the sink a quarter of a second
    apart: both are written to the same file name, and when [main] returns
    the output directory holds one file, with the second stream's audio. *)
Theorem same_second_overwrites :
  now world_same_second 0 <> now world_same_second 1
  /\ file_name (now world_same_second 0) = colliding_name
  /\ file_name (now world_same_second 1) = colliding_name
  /\ exists s,
       exec world_same_second sched_full = Some s
       /\ halted s = Some Returned
       /\ written (trace s) = [(colliding_name, stream0); (colliding_name, stream1)]
       /\ map_to_list (fs s) = [(colliding_name, polly.payload stream1)].
Proof.
  split; [by vm_compute|]. split; [by vm_compute|]. split; [by vm_compute|].
  eexists. split; [vm_compute; reflexivity|]. repeat split; by vm_compute.
Qed.

(** C8, the code: as long as the sink goroutine has not returned, no
    stream and no file has been closed; in [world_ok] the sink takes the
    second stream with the first stream and its file still open, their
    closing deferred. *)
Theorem handles_held_until_sink_exit :
  (forall w sched s,
      exec w sched = Some s -> sink s <> SinkDone ->
      closed_streams (trace s) = [] /\ closed_files (trace s) = [])
  /\ exists s name,
       exec world_ok sched_second_item = Some s
       /\ written (trace s) = [(name, stream0)]
       /\ sink s = SinkItem 1 [DeferStreamClose stream0; DeferFileClose name] stream1
       /\ closed_streams (trace s) = []
       /\ closed_files (trace s) = [].
Proof.
  split.
  - intros w sched s H. by destruct (exec_coherent _ _ _ H).
  - eexists _, _. split; [vm_compute; reflexivity|]. by repeat split.
Qed.

(** C8 on the complete run of [world_ok]: the handles are released when
    the sink returns, last deferred first. *)
Example handles_released_at_exit :
  option_map (fun s => (closed_streams (trace s), closed_files (trace s)))
    (exec world_ok sched_full)
  = Some ([stream1; stream0],
          ["./tmp/Sun Nov  1 01:41:08 UTC 2026.mp3";
           "./tmp/Sun Nov  1 01:41:07 UTC 2026.mp3"]).
Proof. vm_compute. reflexivity. Qed.
